(** * Adapter-TCP: the reconnecting TCP client of Deno-PLC

    A shallow embedding of [mod.ts] (class [TCPAdapter]) and the properties of
    its connection life cycle: status and detail signals, the error
    classifier, the statistics of the attempt durations, the delay handed to
    [setTimeout], the guard of the send callback and the cleanup of sessions.

    The class is asynchronous: [#loop] suspends at [await Deno.connect] and at
    every read of [conn.readable], and the send callback and the [catch] of
    [conn.write] run in between.  The embedding cuts [#loop] at its suspension
    points; each resumption is one [event] of the environment, handled by
    [step].  JavaScript numbers are binary64 floats. *)

From Stdlib Require Import List String Bool Arith Lia ZArith.
From Stdlib.Strings Require Import Byte.
From Stdlib Require Import Floats.PrimFloat.
Import ListNotations.

(** ** JavaScript values the adapter looks at *)

(** A JavaScript number. *)
Definition number := float.

Definition NaN : number := nan.

Module Math.

(** [Math.min(a, b)]: NaN if one argument is NaN, the smaller one otherwise,
    with [-0] below [+0]. *)
Definition min (a b : number) : number :=
  if is_nan a || is_nan b then NaN
  else if (a <? b)%float then a
  else if (b <? a)%float then b
  else if get_sign a then a else b.

(** [Math.max(a, b)], the function the comment next to the delay asks for. *)
Definition max (a b : number) : number :=
  if is_nan a || is_nan b then NaN
  else if (a <? b)%float then b
  else if (b <? a)%float then a
  else if get_sign a then b else a.

End Math.

(** [array.length] as a number. *)
Fixpoint number_of_nat (n : nat) : number :=
  match n with
  | O => 0%float
  | S k => (number_of_nat k + 1)%float
  end.

(** [array.reduce(f, init)]. *)
Definition reduce {A B : Type} (f : B -> A -> B) (init : B) (l : list A) : B :=
  fold_left f l init.

(** What a [catch] clause can receive ([err: unknown]): an instance of
    [Error] with its [name], or any other thrown value. *)
Inductive js_value : Type :=
| JsError (name : string) (message : string)
| JsOther (shown : string).

Definition Uint8Array := list byte.

(** ** The data of [mod.ts] *)

Inductive TCPAdapterConnectionStatus : Type :=
| DISCONNECTED
| CONNECTING
| CONNECTED.

Inductive TCPAdapterConnectionDetails : Type :=
| NO_ERROR
| UNKNOWN_ERROR
| ECONNRESET
| ECONNREFUSED
| ETIMEDOUT
| INTERRUPTED.

Definition status_eqb (a b : TCPAdapterConnectionStatus) : bool :=
  match a, b with
  | DISCONNECTED, DISCONNECTED | CONNECTING, CONNECTING | CONNECTED, CONNECTED => true
  | _, _ => false
  end.

Definition details_eqb (a b : TCPAdapterConnectionDetails) : bool :=
  match a, b with
  | NO_ERROR, NO_ERROR | UNKNOWN_ERROR, UNKNOWN_ERROR | ECONNRESET, ECONNRESET
  | ECONNREFUSED, ECONNREFUSED | ETIMEDOUT, ETIMEDOUT | INTERRUPTED, INTERRUPTED => true
  | _, _ => false
  end.

(** A [Deno.TcpConn] object, by identity: [Deno.connect] resolves with a new
    object every time, the n-th one is [n]. *)
Definition conn := nat.

(** [TCPAdapterOptions]; the session factory is the environment's (see
    [event]). *)
Record TCPAdapterOptions : Type := {
  opt_host : string;
  opt_port : Z;
  opt_verbose : option bool
}.

(** The fields of a [TCPAdapter]. *)
Record TCPAdapter : Type := {
  host : string;
  port : Z;
  verbose : bool;
  status : TCPAdapterConnectionStatus;
  details : TCPAdapterConnectionDetails;
  stats_conn_duration : list number;
  avg_conn_duration : number;
  current_conn : option conn
}.

Definition set_status (s : TCPAdapterConnectionStatus) (a : TCPAdapter) : TCPAdapter :=
  {| host := host a; port := port a; verbose := verbose a;
     status := s; details := details a;
     stats_conn_duration := stats_conn_duration a;
     avg_conn_duration := avg_conn_duration a;
     current_conn := current_conn a |}.

Definition set_details (d : TCPAdapterConnectionDetails) (a : TCPAdapter) : TCPAdapter :=
  {| host := host a; port := port a; verbose := verbose a;
     status := status a; details := d;
     stats_conn_duration := stats_conn_duration a;
     avg_conn_duration := avg_conn_duration a;
     current_conn := current_conn a |}.

Definition set_current_conn (c : option conn) (a : TCPAdapter) : TCPAdapter :=
  {| host := host a; port := port a; verbose := verbose a;
     status := status a; details := details a;
     stats_conn_duration := stats_conn_duration a;
     avg_conn_duration := avg_conn_duration a;
     current_conn := c |}.

Definition set_stats (l : list number) (avg : number) (a : TCPAdapter) : TCPAdapter :=
  {| host := host a; port := port a; verbose := verbose a;
     status := status a; details := details a;
     stats_conn_duration := l;
     avg_conn_duration := avg;
     current_conn := current_conn a |}.

Definition set_verbose (b : bool) (a : TCPAdapter) : TCPAdapter :=
  {| host := host a; port := port a; verbose := b;
     status := status a; details := details a;
     stats_conn_duration := stats_conn_duration a;
     avg_conn_duration := avg_conn_duration a;
     current_conn := current_conn a |}.

(** ** What the adapter does to the outside *)

(** The lines written to the console; all of them start with
    [[TCPAdapter] [host:port]]. *)
Inductive log_line : Type :=
| Line_connecting
| Line_connected
| Line_error (name : string)
| Line_unknown_error_named (name : string)
| Line_unknown_error
| Line_write_to_closed_socket.

Inductive effect : Type :=
| Console_log (l : log_line)
| Console_error (l : log_line)
(** the pair of signals after an assignment or a [batch] *)
| Published (s : TCPAdapterConnectionStatus) (d : TCPAdapterConnectionDetails)
| Deno_connect (hostname : string) (p : Z)
| SetNoDelay (c : conn)
| SetKeepAlive (c : conn)
(** [sessionFactory] called with the callback of [c]; [returned] tells
    whether it gave a session *)
| Session_factory (c : conn) (returned : bool)
| Session_recv (c : conn) (data : Uint8Array)
| Session_destroy (c : conn)
| Conn_write (c : conn) (data : Uint8Array)
| SetTimeout (delay : number)
(** the promise of [#loop] rejected: nobody awaits it *)
| Unhandled_rejection (err : js_value).

(** ** [#handle_err] *)

Definition classify_err (err : js_value) : TCPAdapterConnectionDetails :=
  match err with
  | JsError name _ =>
      if (name =? "ConnectionRefused")%string then ECONNREFUSED
      else if (name =? "ConnectionReset")%string then ECONNRESET
      else if (name =? "Interrupted")%string then INTERRUPTED
      else if (name =? "TimedOut")%string then ETIMEDOUT
      else if (name =? "ConnectionAborted")%string then NO_ERROR
      else UNKNOWN_ERROR
  | JsOther _ => UNKNOWN_ERROR
  end.

Definition known_name (name : string) : bool :=
  (name =? "ConnectionRefused")%string || (name =? "ConnectionReset")%string
  || (name =? "Interrupted")%string || (name =? "TimedOut")%string
  || (name =? "ConnectionAborted")%string.

Definition handle_err_log (a : TCPAdapter) (err : js_value) : list effect :=
  match err with
  | JsError name _ =>
      (if verbose a then [Console_error (Line_error name)] else [])
      ++ (if known_name name then [] else [Console_error (Line_unknown_error_named name)])
  | JsOther _ => [Console_error Line_unknown_error]
  end.

(** One [batch]: status and details are assigned, then published together. *)
Definition handle_err (a : TCPAdapter) (err : js_value) : TCPAdapter * list effect :=
  let a1 := set_status DISCONNECTED a in
  let a2 := set_details (classify_err err) a1 in
  (a2, handle_err_log a err ++ [Published (status a2) (details a2)]).

(** ** [#loop], cut at its suspension points *)

(** [while (stats.length > 6) stats.shift()]. *)
Fixpoint shift_while_longer (l : list number) : list number :=
  match l with
  | [] => []
  | _ :: t => if 6 <? List.length l then shift_while_longer t else l
  end.

Definition average (l : list number) : number :=
  (reduce (fun prev curr => prev + curr) 0 l / number_of_nat (List.length l))%float.

(** The second argument of [setTimeout]. *)
Definition retry_delay (avg : number) : number :=
  Math.min 0%float (5000 - avg)%float.

(** From [await Deno.connect] on, the locals [connStart], [conn] and
    [session] of the running [#loop]. *)
Inductive activation : Type :=
| Stopped
| Sleeping
| AwaitConnect (connStart : number)
| AwaitReadable (connStart : number) (c : conn).

(** What the environment answers when a step asks: the clock, and whether
    [session.destroy()] throws. *)
Record ambient : Type := {
  performance_now : number;
  destroy_throws : option js_value
}.

(** Lines 270 to 281: up to [await Deno.connect]. *)
Definition loop_begin (env : ambient) (a : TCPAdapter) : TCPAdapter * activation * list effect :=
  let a1 := set_status CONNECTING a in
  (a1, AwaitConnect (performance_now env),
   (if verbose a then [Console_log Line_connecting] else [])
   ++ [Published (status a1) (details a1); Deno_connect (host a) (port a)]).

(** Lines 323 to 346: after the [try]. *)
Definition loop_end (env : ambient) (connStart : number) (session : option conn)
    (a : TCPAdapter) : TCPAdapter * list effect :=
  let a1 := set_status DISCONNECTED a in
  let a2 := set_current_conn None a1 in
  let stats := shift_while_longer
                 (stats_conn_duration a2 ++ [(performance_now env - connStart)%float]) in
  let a3 := set_stats stats (average stats) a2 in
  (a3,
   [Published (status a1) (details a1); SetTimeout (retry_delay (avg_conn_duration a3))]
   ++ match session with
      | Some s =>
          Session_destroy s
          :: match destroy_throws env with
             | Some e => [Unhandled_rejection e]
             | None => []
             end
      | None => []
      end).

(** The [catch] clause followed by the rest of [#loop]. *)
Definition loop_catch (env : ambient) (connStart : number) (session : option conn)
    (a : TCPAdapter) (err : js_value) : TCPAdapter * list effect :=
  let (a1, o1) := handle_err a err in
  let (a2, o2) := loop_end env connStart session a1 in
  (a2, o1 ++ o2).

(** Lines 286 to 301: [Deno.connect] resolved with [c]. *)
Definition loop_connected (c : conn) (a : TCPAdapter) : TCPAdapter * list effect :=
  let a1 := set_current_conn (Some c) a in
  let a2 := set_details NO_ERROR (set_status CONNECTED a1) in
  (a2,
   [SetNoDelay c; SetKeepAlive c]
   ++ (if verbose a then [Console_log Line_connected] else [])
   ++ [Published (status a2) (details a2)]).

(** ** The adapter in its environment *)

Record world : Type := {
  adapter : TCPAdapter;
  frame : activation;
  (** connections whose send callback was handed to a session factory *)
  callbacks : list conn;
  (** one entry per [conn.write] whose promise has not settled *)
  pending_writes : list conn;
  (** the next [Deno.TcpConn] *)
  fresh_conn : conn
}.

Definition with_adapter (a : TCPAdapter) (w : world) : world :=
  {| adapter := a; frame := frame w; callbacks := callbacks w;
     pending_writes := pending_writes w; fresh_conn := fresh_conn w |}.

Definition with_frame (a : TCPAdapter) (f : activation) (w : world) : world :=
  {| adapter := a; frame := f; callbacks := callbacks w;
     pending_writes := pending_writes w; fresh_conn := fresh_conn w |}.

Fixpoint remove_one (c : conn) (l : list conn) : list conn :=
  match l with
  | [] => []
  | x :: t => if Nat.eqb x c then t else x :: remove_one c t
  end.

Definition conn_is (c : conn) (o : option conn) : bool :=
  match o with
  | Some c' => Nat.eqb c c'
  | None => false
  end.

Inductive event : Type :=
(** the callback given to [setTimeout] runs *)
| Timeout
| ConnectRejected (err : js_value)
(** [Deno.connect] resolves; [factory_throws] is what [sessionFactory] does *)
| ConnectResolved (factory_throws : option js_value)
(** [conn.readable] yields a chunk; [recv_throws] is what [session.recv] does *)
| Chunk (data : Uint8Array) (recv_throws : option js_value)
| ReadableClosed
| ReadableErrored (err : js_value)
(** a session calls the send callback it got for [c] *)
| SendCalled (c : conn) (data : Uint8Array)
(** the promise of a [conn.write] on [c] settles *)
| WriteSettled (c : conn) (failure : option js_value)
(** the user assigns [adapter.verbose] *)
| VerboseSet (b : bool).

(** The send callback, lines 303 to 315. *)
Definition send_callback (c : conn) (data : Uint8Array) (w : world) : world * list effect :=
  if conn_is c (current_conn (adapter w)) then
    ({| adapter := adapter w; frame := frame w; callbacks := callbacks w;
        pending_writes := c :: pending_writes w; fresh_conn := fresh_conn w |},
     [Conn_write c data])
  else (w, [Console_error Line_write_to_closed_socket]).

Definition step (env : ambient) (w : world) (ev : event) : option (world * list effect) :=
  match ev with
  | Timeout =>
      match frame w with
      | Sleeping =>
          let '(a, f, o) := loop_begin env (adapter w) in
          Some (with_frame a f w, o)
      | _ => None
      end
  | ConnectRejected err =>
      match frame w with
      | AwaitConnect connStart =>
          let (a, o) := loop_catch env connStart None (adapter w) err in
          Some (with_frame a Sleeping w, o)
      | _ => None
      end
  | ConnectResolved factory_throws =>
      match frame w with
      | AwaitConnect connStart =>
          let c := fresh_conn w in
          let (a1, o1) := loop_connected c (adapter w) in
          match factory_throws with
          | None =>
              Some ({| adapter := a1; frame := AwaitReadable connStart c;
                       callbacks := c :: callbacks w;
                       pending_writes := pending_writes w;
                       fresh_conn := S c |},
                    o1 ++ [Session_factory c true])
          | Some err =>
              let (a2, o2) := loop_catch env connStart None a1 err in
              Some ({| adapter := a2; frame := Sleeping;
                       callbacks := c :: callbacks w;
                       pending_writes := pending_writes w;
                       fresh_conn := S c |},
                    o1 ++ [Session_factory c false] ++ o2)
          end
      | _ => None
      end
  | Chunk data recv_throws =>
      match frame w with
      | AwaitReadable connStart c =>
          match recv_throws with
          | None => Some (w, [Session_recv c data])
          | Some err =>
              let (a, o) := loop_catch env connStart (Some c) (adapter w) err in
              Some (with_frame a Sleeping w, Session_recv c data :: o)
          end
      | _ => None
      end
  | ReadableClosed =>
      match frame w with
      | AwaitReadable connStart c =>
          let (a, o) := loop_end env connStart (Some c) (adapter w) in
          Some (with_frame a Sleeping w, o)
      | _ => None
      end
  | ReadableErrored err =>
      match frame w with
      | AwaitReadable connStart c =>
          let (a, o) := loop_catch env connStart (Some c) (adapter w) err in
          Some (with_frame a Sleeping w, o)
      | _ => None
      end
  | SendCalled c data =>
      if existsb (Nat.eqb c) (callbacks w) then Some (send_callback c data w) else None
  | WriteSettled c failure =>
      if existsb (Nat.eqb c) (pending_writes w) then
        let w1 := {| adapter := adapter w; frame := frame w; callbacks := callbacks w;
                     pending_writes := remove_one c (pending_writes w);
                     fresh_conn := fresh_conn w |} in
        match failure with
        | None => Some (w1, [])
        | Some err =>
            let (a, o) := handle_err (adapter w) err in
            Some (with_adapter a w1, o)
        end
      else None
  | VerboseSet b => Some (with_adapter (set_verbose b (adapter w)) w, [])
  end.

Fixpoint run (w : world) (tr : list (ambient * event)) : option (world * list effect) :=
  match tr with
  | [] => Some (w, [])
  | (env, ev) :: rest =>
      match step env w ev with
      | Some (w1, o) =>
          match run w1 rest with
          | Some (w2, out) => Some (w2, o ++ out)
          | None => None
          end
      | None => None
      end
  end.

(** ** The constructor *)

(** The field initialisers of the class. *)
Definition fields (options : TCPAdapterOptions) : TCPAdapter :=
  {| host := opt_host options;
     port := opt_port options;
     verbose := match opt_verbose options with Some b => b | None => false end;
     status := DISCONNECTED;
     details := NO_ERROR;
     stats_conn_duration := [];
     avg_conn_duration := NaN;
     current_conn := None |}.

(** [options.host && options.host !== "!"]. *)
Definition enabled (options : TCPAdapterOptions) : bool :=
  negb (opt_host options =? "")%string && negb (opt_host options =? "!")%string.

Definition construct (env : ambient) (options : TCPAdapterOptions) : world * list effect :=
  let a := fields options in
  if enabled options then
    let '(a1, f, o) := loop_begin env a in
    ({| adapter := a1; frame := f; callbacks := []; pending_writes := []; fresh_conn := 0 |}, o)
  else
    ({| adapter := a; frame := Stopped; callbacks := []; pending_writes := []; fresh_conn := 0 |}, []).

(** The constructor followed by the events [tr]. *)
Definition launch (env : ambient) (options : TCPAdapterOptions)
    (tr : list (ambient * event)) : option (world * list effect) :=
  let (w0, o0) := construct env options in
  match run w0 tr with
  | Some (w, out) => Some (w, o0 ++ out)
  | None => None
  end.

(** ** What an observer sees *)

Definition snapshot : Type := TCPAdapterConnectionStatus * TCPAdapterConnectionDetails.

(** The published pairs of status and details, in order. *)
Fixpoint snapshots (out : list effect) : list snapshot :=
  match out with
  | [] => []
  | Published s d :: rest => (s, d) :: snapshots rest
  | _ :: rest => snapshots rest
  end.

Definition statuses (out : list effect) : list TCPAdapterConnectionStatus :=
  map fst (snapshots out).

(** Every value of [l] relates to the one before it, [x] coming first. *)
Fixpoint chain {A : Type} (ok : A -> A -> bool) (x : A) (l : list A) : bool :=
  match l with
  | [] => true
  | y :: rest => ok x y && chain ok y rest
  end.

(** The four transitions of the status; an assignment of the value the
    signal already has is no transition. *)
Definition status_move (a b : TCPAdapterConnectionStatus) : bool :=
  match a, b with
  | DISCONNECTED, CONNECTING => true
  | CONNECTING, CONNECTED => true
  | CONNECTING, DISCONNECTED => true
  | CONNECTED, DISCONNECTED => true
  | _, _ => false
  end.

Definition status_rule (a b : TCPAdapterConnectionStatus) : bool :=
  status_eqb a b || status_move a b.

(** Details change only when the status published with them is
    [DISCONNECTED]. *)
Definition details_rule (p q : snapshot) : bool :=
  details_eqb (snd p) (snd q) || status_eqb (fst q) DISCONNECTED.

(** Details change when the status published with them is [DISCONNECTED],
    or to [NO_ERROR] when it is [CONNECTED]. *)
Definition details_rule_connected (p q : snapshot) : bool :=
  details_eqb (snd p) (snd q)
  || status_eqb (fst q) DISCONNECTED
  || (status_eqb (fst q) CONNECTED && details_eqb (snd q) NO_ERROR).

(** A write of an earlier connection fails while [#loop] awaits
    [Deno.connect]. *)
Definition late_write_failure (w : world) (ev : event) : bool :=
  match frame w, ev with
  | AwaitConnect _, WriteSettled _ (Some _) => true
  | _, _ => false
  end.

Fixpoint no_late_write_failure (w : world) (tr : list (ambient * event)) : bool :=
  match tr with
  | [] => true
  | (env, ev) :: rest =>
      negb (late_write_failure w ev)
      && match step env w ev with
         | Some (w1, _) => no_late_write_failure w1 rest
         | None => true
         end
  end.

(** ** Attempts, their durations and their sessions *)

(** The last [n] values of [l]. *)
Definition last_n {A : Type} (n : nat) (l : list A) : list A :=
  skipn (List.length l - n) l.

(** The events that end an attempt. *)
Definition ends_attempt (ev : event) : bool :=
  match ev with
  | ConnectRejected _ | ConnectResolved (Some _) | Chunk _ (Some _)
  | ReadableClosed | ReadableErrored _ => true
  | _ => false
  end.

(** The duration of every attempt that ended during [tr], oldest first;
    [connStart] is the start of the attempt under way. *)
Fixpoint attempt_durations (connStart : number) (tr : list (ambient * event)) : list number :=
  match tr with
  | [] => []
  | (env, ev) :: rest =>
      match ev with
      | Timeout => attempt_durations (performance_now env) rest
      | _ =>
          if ends_attempt ev
          then (performance_now env - connStart)%float :: attempt_durations connStart rest
          else attempt_durations connStart rest
      end
  end.

Definition is_destroy (c : conn) (e : effect) : bool :=
  match e with
  | Session_destroy c' => Nat.eqb c c'
  | _ => false
  end.

Definition is_session (c : conn) (e : effect) : bool :=
  match e with
  | Session_factory c' true => Nat.eqb c c'
  | _ => false
  end.

Definition is_connect (e : effect) : bool :=
  match e with Deno_connect _ _ => true | _ => false end.

Definition is_timer (e : effect) : bool :=
  match e with SetTimeout _ => true | _ => false end.

Definition is_unhandled (e : effect) : bool :=
  match e with Unhandled_rejection _ => true | _ => false end.

Definition is_write (e : effect) : bool :=
  match e with Conn_write _ _ => true | _ => false end.

Definition count (p : effect -> bool) (out : list effect) : nat :=
  List.length (filter p out).

(** 1 while the attempt of [c] awaits its stream, 0 otherwise. *)
Definition pumping (c : conn) (f : activation) : nat :=
  match f with
  | AwaitReadable _ c' => if Nat.eqb c c' then 1 else 0
  | _ => 0
  end.

(** The failure [ev] brings to the attempt under way in [w], if it is one. *)
Definition attempt_failure (w : world) (ev : event) : option js_value :=
  match frame w, ev with
  | AwaitConnect _, ConnectRejected e => Some e
  | AwaitReadable _ _, ReadableErrored e => Some e
  | AwaitReadable _ _, Chunk _ (Some e) => Some e
  | _, _ => None
  end.

Definition refused : js_value := JsError "ConnectionRefused" "connection refused".

(** Every attempt is refused at once; [envs] gives the clock of each
    rejection and of the timer that follows it. *)
Fixpoint refusals (envs : list (ambient * ambient)) : list (ambient * event) :=
  match envs with
  | [] => []
  | (e1, e2) :: rest => (e1, ConnectRejected refused) :: (e2, Timeout) :: refusals rest
  end.

(** The names [#handle_err] tells apart. *)
Definition recognised_names : list string :=
  ["ConnectionRefused"; "ConnectionReset"; "Interrupted"; "TimedOut";
   "ConnectionAborted"]%string.

(** ** Invariants of the reachable worlds *)

(** Nothing is under way and nothing can come back. *)
Definition quiet (w : world) : Prop :=
  frame w = Stopped /\ callbacks w = [] /\ pending_writes w = []
  /\ status (adapter w) = DISCONNECTED.

(** [#current_conn] is the connection whose stream is read, and every
    connection handed out is older than the next one. *)
Definition coherent (w : world) : Prop :=
  current_conn (adapter w)
  = match frame w with AwaitReadable _ c => Some c | _ => None end
  /\ (forall cs c, frame w = AwaitReadable cs c ->
        existsb (Nat.eqb c) (callbacks w) = true /\ c < fresh_conn w).

(** The status that goes with each suspension point when no write fails
    late. *)
Definition in_step (w : world) : Prop :=
  match frame w with
  | Stopped | Sleeping => status (adapter w) = DISCONNECTED
  | AwaitConnect _ => status (adapter w) = CONNECTING
  | AwaitReadable _ _ =>
      status (adapter w) = CONNECTED \/ status (adapter w) = DISCONNECTED
  end.

Definition start_of (f : activation) (s : number) : Prop :=
  match f with
  | AwaitConnect cs | AwaitReadable cs _ => s = cs
  | _ => True
  end.

(** ** Sample inputs *)

Definition at_time (t : number) : ambient :=
  {| performance_now := t; destroy_throws := None |}.

Arguments at_time t%_float.

Definition sample_options : TCPAdapterOptions :=
  {| opt_host := "127.0.0.1"; opt_port := 1234; opt_verbose := None |}.

Definition disabled_options : TCPAdapterOptions :=
  {| opt_host := "!"; opt_port := 1234; opt_verbose := Some true |}.

Definition reset : js_value := JsError "ConnectionReset" "connection reset by peer".

Definition hello : Uint8Array := [x48; x69]%byte.

(** One attempt: connected at once, reset by the peer after 100 ms. *)
Definition reset_after_100ms : list (ambient * event) :=
  [(at_time 0, ConnectResolved None); (at_time 100, ReadableErrored reset)].

(** A write of connection 0 is still pending when its stream closes; it
    fails while the next attempt awaits [Deno.connect]. *)
Definition write_fails_late : list (ambient * event) :=
  [(at_time 0, ConnectResolved None);
   (at_time 10, SendCalled 0 hello);
   (at_time 100, ReadableClosed);
   (at_time 100, Timeout);
   (at_time 101, WriteSettled 0 (Some reset));
   (at_time 102, ConnectResolved None)].

(** A refused attempt followed by a successful one. *)
Definition refused_then_connected : list (ambient * event) :=
  [(at_time 1, ConnectRejected refused);
   (at_time 1, Timeout);
   (at_time 2, ConnectResolved None)].

(** Connection 0 ends, connection 1 takes over, then the session of
    connection 0 sends. *)
Definition superseded : list (ambient * event) :=
  [(at_time 0, ConnectResolved None);
   (at_time 100, ReadableClosed);
   (at_time 100, Timeout);
   (at_time 101, ConnectResolved None)].

(** Seven attempts lasting 1 to 7 ms. *)
Definition seven_attempts : list (ambient * event) :=
  [(at_time 1, ConnectRejected refused); (at_time 10, Timeout);
   (at_time 12, ConnectRejected refused); (at_time 20, Timeout);
   (at_time 23, ConnectRejected refused); (at_time 30, Timeout);
   (at_time 34, ConnectRejected refused); (at_time 40, Timeout);
   (at_time 45, ConnectRejected refused); (at_time 50, Timeout);
   (at_time 56, ConnectRejected refused); (at_time 60, Timeout);
   (at_time 67, ConnectRejected refused)].

(** Connected, one write that fails while the stream stays open. *)
Definition connected_once : list (ambient * event) :=
  [(at_time 0, ConnectResolved None)].

(** ** More of what a run shows *)

(** The history holds the last six of the durations [G], and the average
    is that of the history once there is one. *)
Definition stats_of (G : list number) (a : TCPAdapter) : Prop :=
  stats_conn_duration a = last_n 6 G
  /\ avg_conn_duration a
     = match G with [] => NaN | _ => average (stats_conn_duration a) end.

(** The pair of signals as it stands. *)
Definition seen (w : world) : snapshot := (status (adapter w), details (adapter w)).

(** 1 while an activation of [#loop] is suspended, 0 otherwise. *)
Definition active (f : activation) : nat :=
  match f with
  | AwaitConnect _ | AwaitReadable _ _ => 1
  | _ => 0
  end.

(** The arguments of the calls of [session.recv], in order. *)
Fixpoint received (out : list effect) : list Uint8Array :=
  match out with
  | [] => []
  | Session_recv _ data :: rest => data :: received rest
  | _ :: rest => received rest
  end.

(** The chunks the streams yielded, in order. *)
Fixpoint delivered (tr : list (ambient * event)) : list Uint8Array :=
  match tr with
  | [] => []
  | (_, Chunk data _) :: rest => data :: delivered rest
  | _ :: rest => delivered rest
  end.

(** After [destroy] of the session of [c], no [recv] of it and no write on
    [c]. *)
Fixpoint silent_after_destroy (out : list effect) : Prop :=
  match out with
  | [] => True
  | Session_destroy c :: rest =>
      (forall d, ~ In (Conn_write c d) rest)
      /\ (forall d, ~ In (Session_recv c d) rest)
      /\ silent_after_destroy rest
  | _ :: rest => silent_after_destroy rest
  end.



(** [session.destroy()] never throws during [tr]. *)
Definition destroy_is_total (tr : list (ambient * event)) : bool :=
  forallb (fun x => match destroy_throws (fst x) with Some _ => false | None => true end) tr.

(** ** The example: [MyProtocolAdapter] *)



(** [new TextEncoder().encode("Client Hello")]. *)
Definition client_hello : Uint8Array :=
  [x43; x6c; x69; x65; x6e; x74; x20; x48; x65; x6c; x6c; x6f]%byte.


(** Connected; the session says hello, the write fails, a chunk arrives. *)
Definition write_fails_while_connected : list (ambient * event) :=
  [(at_time 0, ConnectResolved None);
   (at_time 1, SendCalled 0 client_hello);
   (at_time 2, WriteSettled 0 (Some reset));
   (at_time 3, Chunk hello None)].

(** Two chunks, the second one makes [recv] throw. *)
Definition two_chunks : list (ambient * event) :=
  [(at_time 0, ConnectResolved None);
   (at_time 1, Chunk hello None);
   (at_time 2, Chunk client_hello (Some (JsOther "bad frame")))].

(** A timer that does not wait. *)
Definition immediate (e : effect) : Prop :=
  match e with
  | SetTimeout d => (0 <? d)%float = false
  | _ => True
  end.

(** A connect to [h]:[p]. *)
Definition targets (h : string) (p : Z) (e : effect) : Prop :=
  match e with
  | Deno_connect h' p' => h' = h /\ p' = p
  | _ => True
  end.



Definition is_destroy_any (e : effect) : bool :=
  match e with Session_destroy _ => true | _ => false end.

(** The example talking to its demo server for one connection. *)
Definition example_run : list (ambient * event) :=
  [(at_time 1, ConnectResolved None);
   (at_time 2, SendCalled 0 client_hello);
   (at_time 3, Chunk hello None);
   (at_time 50, ReadableClosed);
   (at_time 50, SendCalled 0 client_hello)].

(** * Properties *)

(** ** Basic facts *)

Ltac inv H := inversion H; subst; clear H.

Lemma handle_err_adapter : forall a err,
  fst (handle_err a err)
  = set_details (classify_err err) (set_status DISCONNECTED a).
Proof. reflexivity. Qed.

Lemma run_app : forall tr1 tr2 w,
  run w (tr1 ++ tr2)
  = match run w tr1 with
    | Some (w1, o1) =>
        match run w1 tr2 with
        | Some (w2, o2) => Some (w2, o1 ++ o2)
        | None => None
        end
    | None => None
    end.
Proof.
  induction tr1 as [| [env ev] tr1 IH]; intros tr2 w; simpl.
  - destruct (run w tr2) as [[w2 o2] |]; reflexivity.
  - destruct (step env w ev) as [[w1 o] |]; [| reflexivity].
    rewrite IH. destruct (run w1 tr1) as [[w2 o2] |]; [| reflexivity].
    destruct (run w2 tr2) as [[w3 o3] |]; [| reflexivity].
    now rewrite app_assoc.
Qed.

Lemma count_app : forall p o1 o2, count p (o1 ++ o2) = count p o1 + count p o2.
Proof. intros. unfold count. now rewrite filter_app, length_app. Qed.

Lemma snapshots_app : forall o1 o2, snapshots (o1 ++ o2) = snapshots o1 ++ snapshots o2.
Proof.
  induction o1 as [| e o1 IH]; intros o2; simpl; [reflexivity |].
  destruct e; simpl; rewrite ?IH; reflexivity.
Qed.

Lemma last_cons : forall (A : Type) (l : list A) (x y : A),
  last (y :: l) x = last l y.
Proof.
  induction l as [| z l IH]; intros x y; [reflexivity |].
  change (last (z :: l) x = last (z :: l) y).
  now rewrite !IH.
Qed.

Lemma chain_app : forall (A : Type) (ok : A -> A -> bool) l1 l2 x,
  chain ok x (l1 ++ l2) = chain ok x l1 && chain ok (last l1 x) l2.
Proof.
  induction l1 as [| y l1 IH]; intros l2 x.
  - reflexivity.
  - change (chain ok x ((y :: l1) ++ l2)) with (ok x y && chain ok y (l1 ++ l2)).
    rewrite IH, andb_assoc, last_cons. reflexivity.
Qed.

(** ** The classifier *)

(** C6: [#handle_err] maps a refused connection to ECONNREFUSED, a reset one
    to ECONNRESET, an exceeded deadline to ETIMEDOUT, an interruption to
    INTERRUPTED, an abort of the connection to NO_ERROR, an [Error] of any
    other name to UNKNOWN_ERROR and a value that is no [Error] to
    UNKNOWN_ERROR. *)
Theorem handle_err_classifies :
  forall (a : TCPAdapter) (name message shown : string),
    let detail_after err := details (fst (handle_err a err)) in
    detail_after (JsError "ConnectionRefused" message) = ECONNREFUSED
    /\ detail_after (JsError "ConnectionReset" message) = ECONNRESET
    /\ detail_after (JsError "TimedOut" message) = ETIMEDOUT
    /\ detail_after (JsError "Interrupted" message) = INTERRUPTED
    /\ detail_after (JsError "ConnectionAborted" message) = NO_ERROR
    /\ (~ In name recognised_names ->
        detail_after (JsError name message) = UNKNOWN_ERROR)
    /\ detail_after (JsOther shown) = UNKNOWN_ERROR.
Proof.
  intros a name message shown detail_after. unfold detail_after.
  repeat split; try reflexivity.
  intros Hname. rewrite handle_err_adapter. simpl.
  repeat match goal with
  | |- context [String.eqb name ?s] =>
      destruct (String.eqb_spec name s) as [-> | _];
      [exfalso; apply Hname; simpl; tauto |]
  end.
  reflexivity.
Qed.

Lemma handle_err_classifies_witness :
  ~ In "BrokenPipe"%string recognised_names
  /\ details (fst (handle_err (fields sample_options) (JsError "BrokenPipe" "EPIPE")))
     = UNKNOWN_ERROR.
Proof.
  assert (H : ~ In "BrokenPipe"%string recognised_names).
  { simpl. intros [H | [H | [H | [H | [H | []]]]]]; discriminate H. }
  split; [exact H |].
  exact (proj1 (proj2 (proj2 (proj2 (proj2 (proj2
    (handle_err_classifies (fields sample_options) "BrokenPipe" "EPIPE" "")))))) H).
Defined.

(** ** The disabled adapter *)

Lemma quiet_step : forall env w ev w' o,
  quiet w -> step env w ev = Some (w', o) ->
  quiet w' /\ o = [] /\ exists b, ev = VerboseSet b.
Proof.
  intros env [a f cbs pend fr] ev w' o (Hf & Hc & Hp & Hs) Hstep.
  simpl in *. subst f cbs pend.
  destruct ev; simpl in Hstep; try discriminate Hstep.
  inv Hstep. repeat split; simpl; eauto.
Qed.

Lemma quiet_run : forall tr w w' out,
  quiet w -> run w tr = Some (w', out) ->
  quiet w' /\ out = [] /\ Forall (fun x => exists b, snd x = VerboseSet b) tr.
Proof.
  induction tr as [| [env ev] tr IH]; intros w w' out Hq Hrun; simpl in Hrun.
  - inv Hrun. auto.
  - destruct (step env w ev) as [[w1 o] |] eqn:Hstep; [| discriminate].
    destruct (run w1 tr) as [[w2 out2] |] eqn:Hrest; [| discriminate].
    inv Hrun.
    destruct (quiet_step _ _ _ _ _ Hq Hstep) as (Hq1 & -> & Hev).
    destruct (IH _ _ _ Hq1 Hrest) as (Hq2 & -> & Hall).
    auto.
Qed.

(** C7: with host [""] or ["!"] the constructor does not call [#loop]:
    whatever happens afterwards, nothing is done to the outside (no connect,
    no call of the session factory), the status stays DISCONNECTED and no
    activation of the loop exists; the only thing that can happen at all is
    an assignment of [verbose]. *)
Theorem disabled_host_never_starts :
  forall env options tr w out,
    opt_host options = ""%string \/ opt_host options = "!"%string ->
    launch env options tr = Some (w, out) ->
    out = []
    /\ status (adapter w) = DISCONNECTED
    /\ frame w = Stopped
    /\ Forall (fun x => exists b, snd x = VerboseSet b) tr.
Proof.
  intros env options tr w out Hhost Hlaunch.
  unfold launch, construct in Hlaunch.
  assert (Hdis : enabled options = false).
  { unfold enabled. destruct Hhost as [-> | ->]; reflexivity. }
  rewrite Hdis in Hlaunch.
  match type of Hlaunch with
  | context [run ?w0 tr] => destruct (run w0 tr) as [[w1 o1] |] eqn:Hrun; [| discriminate];
      assert (Hq : quiet w0) by (repeat split; reflexivity)
  end.
  inv Hlaunch.
  destruct (quiet_run _ _ _ _ Hq Hrun) as ((Hf & _ & _ & Hs) & -> & Hall).
  auto.
Qed.

Lemma disabled_host_never_starts_witness :
  exists w,
    launch (at_time 0) disabled_options [(at_time 5, VerboseSet false)] = Some (w, [])
    /\ status (adapter w) = DISCONNECTED
    /\ frame w = Stopped.
Proof.
  eexists. split; [reflexivity |].
  destruct (disabled_host_never_starts (at_time 0) disabled_options
              [(at_time 5, VerboseSet false)] _ _ (or_intror eq_refl) eq_refl)
    as (_ & Hs & Hf & _).
  split; assumption.
Defined.

(** ** The delay before the next attempt *)

Lemma retry_delay_never_positive : forall avg,
  (0 <? retry_delay avg)%float = false.
Proof.
  intros avg. unfold retry_delay, Math.min.
  destruct (is_nan 0 || is_nan (5000 - avg)); [reflexivity |].
  destruct (0 <? 5000 - avg)%float eqn:E; [reflexivity |].
  destruct (5000 - avg <? 0)%float; [exact E |].
  destruct (get_sign 0); [reflexivity | exact E].
Qed.

(** C1 (the code does otherwise): the delay handed to [setTimeout] is
    [Math.min(0, 5000 - avg_conn_duration)], not the maximum.  After one
    attempt that is reset after 100 ms, details are ECONNRESET, the history
    is [100], the average is 100 and the timer is set with delay 0, where
    the maximum would give 4900. *)
Theorem delay_after_one_attempt_of_100ms :
  exists w out,
    launch (at_time 0) sample_options reset_after_100ms = Some (w, out)
    /\ details (adapter w) = ECONNRESET
    /\ stats_conn_duration (adapter w) = [100%float]
    /\ avg_conn_duration (adapter w) = 100%float
    /\ filter is_timer out = [SetTimeout 0%float]
    /\ retry_delay 100%float = 0%float
    /\ Math.max 0%float (5000 - 100)%float = 4900%float.
Proof.
  do 2 eexists. split; [vm_compute; reflexivity |].
  repeat split; reflexivity.
Qed.

(** ** The guard of the send callback *)

(** C2: a call of the send callback of a connection that is not the current
    one leaves the adapter as it is and only logs the warning: it writes to
    no connection.  Whenever the callback of [c] does write, it writes to
    [c] and [c] is the current connection. *)
Theorem stale_send_writes_nothing :
  forall env w c data w' out,
    step env w (SendCalled c data) = Some (w', out) ->
    (forall c' d, In (Conn_write c' d) out ->
       c' = c /\ current_conn (adapter w) = Some c)
    /\ (current_conn (adapter w) <> Some c ->
        w' = w
        /\ out = [Console_error Line_write_to_closed_socket]
        /\ count is_write out = 0).
Proof.
  intros env w c data w' out Hstep. simpl in Hstep.
  destruct (existsb (Nat.eqb c) (callbacks w)); [| discriminate].
  unfold send_callback in Hstep.
  destruct (current_conn (adapter w)) as [c0 |] eqn:Hcur; simpl in Hstep.
  - destruct (Nat.eqb_spec c c0) as [<- | Hne]; inv Hstep.
    + split.
      * intros c' d [H | []]. inv H. auto.
      * intros H. now elim H.
    + split.
      * intros c' d [H | []]. discriminate H.
      * auto.
  - inv Hstep. split.
    + intros c' d [H | []]. discriminate H.
    + auto.
Qed.

Lemma stale_send_writes_nothing_witness :
  exists w out,
    launch (at_time 0) sample_options superseded = Some (w, out)
    /\ current_conn (adapter w) = Some 1
    /\ step (at_time 102) w (SendCalled 0 hello)
       = Some (w, [Console_error Line_write_to_closed_socket]).
Proof.
  do 2 eexists. split; [vm_compute; reflexivity |].
  split; [reflexivity |].
  match goal with
  | |- step ?env ?w ?ev = _ =>
      destruct (step env w ev) as [[w' out] |] eqn:Hstep; [| discriminate Hstep];
      destruct (stale_send_writes_nothing env w 0 hello w' out Hstep) as [_ H]
  end.
  destruct H as (-> & -> & _); [discriminate | reflexivity].
Defined.

Arguments retry_delay : simpl never.
Arguments average : simpl never.
Arguments shift_while_longer : simpl never.
Arguments handle_err_log : simpl never.

Ltac step_cases H :=
  match type of H with
  | step _ ?w ?ev = Some _ =>
      destruct w as [a f cbs pend fr]; destruct ev;
      unfold step, send_callback in H; simpl in H;
      try (destruct f; try discriminate H);
      repeat match type of H with
      | match ?x with _ => _ end = Some _ => destruct x eqn:?; try discriminate H
      | Some (match ?x with _ => _ end) = Some _ => destruct x eqn:?
      end;
      inv H
  end.

(** Runs a sample launch and keeps its equation as [H]. *)
Ltac launched H :=
  do 2 eexists;
  match goal with
  | |- ?L = Some (?w, ?o) /\ _ =>
      assert (H : L = Some (w, o)) by (vm_compute; reflexivity)
  end;
  split; [exact H |].

(** ** Sessions and their cleanup *)

Lemma coherent_step : forall env w ev w' o,
  coherent w -> step env w ev = Some (w', o) -> coherent w'.
Proof.
  intros env w ev w' o [Hc Hf] Hstep.
  step_cases Hstep; simpl in *.
  all: split; simpl.
  all: try reflexivity; try assumption.
  all: intros cs0 c0 H; try discriminate H; inv H.
  all: try (destruct (Hf _ _ eq_refl) as [H1 H2]; split; [exact H1 | exact H2]).
  all: split; [simpl; now rewrite Nat.eqb_refl | lia].
Qed.

Lemma filter_handle_err_log : forall p a err,
  (forall l, p (Console_error l) = false) -> filter p (handle_err_log a err) = [].
Proof.
  intros p a err Hp. unfold handle_err_log.
  destruct err as [name msg | shown]; simpl.
  - destruct (verbose a), (known_name name); simpl; rewrite ?Hp; reflexivity.
  - now rewrite Hp.
Qed.

Ltac tally :=
  unfold count; simpl;
  repeat (rewrite ?filter_app, ?length_app;
          rewrite ?filter_handle_err_log by (intros; reflexivity); simpl).

Lemma session_step : forall env w ev w' o c,
  coherent w -> step env w ev = Some (w', o) ->
  fresh_conn w <= fresh_conn w'
  /\ count (is_destroy c) o + pumping c (frame w')
     = pumping c (frame w) + count (is_session c) o
  /\ (count (is_session c) o = 0
      \/ (count (is_session c) o = 1 /\ c = fresh_conn w /\ fresh_conn w' = S c)).
Proof.
  intros env w ev w' o c [Hc Hf] Hstep.
  step_cases Hstep; tally.
  all: repeat match goal with
       | |- context [if verbose ?a then _ else _] => destruct (verbose a); simpl
       | |- context [match destroy_throws ?e with _ => _ end] => destruct (destroy_throws e); simpl
       | |- context [Nat.eqb ?x ?y] => destruct (Nat.eqb_spec x y); simpl
       end.
  all: try lia.
Qed.

Lemma construct_coherent : forall env options,
  coherent (fst (construct env options))
  /\ forall c, count (is_destroy c) (snd (construct env options)) = 0
            /\ count (is_session c) (snd (construct env options)) = 0
            /\ pumping c (frame (fst (construct env options))) = 0.
Proof.
  intros env options. unfold construct.
  destruct (enabled options); simpl.
  - split; [split; [reflexivity | intros cs c H; discriminate H] |].
    intros c. repeat split; tally; destruct (opt_verbose options) as [[] |]; reflexivity.
  - split; [split; [reflexivity | intros cs c H; discriminate H] |].
    intros c. repeat split.
Qed.

Lemma session_run : forall tr w w' out c,
  coherent w -> run w tr = Some (w', out) ->
  coherent w' /\ fresh_conn w <= fresh_conn w'
  /\ count (is_destroy c) out + pumping c (frame w')
     = pumping c (frame w) + count (is_session c) out
  /\ (c < fresh_conn w -> count (is_session c) out = 0)
  /\ count (is_session c) out <= 1.
Proof.
  induction tr as [| [env ev] tr IH]; intros w w' out c Hw Hrun; simpl in Hrun.
  - inv Hrun. unfold count. simpl.
    split; [assumption |]. split; [lia |]. split; [lia |]. split; [reflexivity | lia].
  - destruct (step env w ev) as [[w1 o] |] eqn:Hstep; [| discriminate].
    destruct (run w1 tr) as [[w2 out2] |] eqn:Hrest; [| discriminate].
    inv Hrun.
    pose proof (coherent_step _ _ _ _ _ Hw Hstep) as Hw1.
    destruct (session_step _ _ _ _ _ c Hw Hstep) as (Hfr & Hcount & Hnew).
    destruct (IH _ _ _ c Hw1 Hrest) as (Hw2 & Hfr2 & Hcount2 & Hold & Hone).
    rewrite !count_app.
    split; [assumption |]. split; [lia |]. split; [lia |]. split; [intros Hlt |]; lia.
Qed.

(** X1: [session.destroy()] is called exactly once for every session, when
    its attempt ends, by whatever way it ends; it is not called while the
    attempt is under way, and never for a connection whose session factory
    gave no session.  No connection gets two sessions. *)
Theorem destroy_once_per_session :
  forall env options tr w out c,
    launch env options tr = Some (w, out) ->
    count (is_session c) out <= 1
    /\ (count (is_session c) out = 0 -> count (is_destroy c) out = 0)
    /\ (count (is_session c) out = 1 -> pumping c (frame w) = 0 ->
        count (is_destroy c) out = 1)
    /\ (pumping c (frame w) = 1 ->
        count (is_session c) out = 1 /\ count (is_destroy c) out = 0).
Proof.
  intros env options tr w out c Hlaunch. unfold launch in Hlaunch.
  destruct (construct_coherent env options) as [Hw0 Hzero].
  destruct (Hzero c) as (Hd0 & Hs0 & Hp0).
  destruct (construct env options) as [w0 o0]. simpl in *.
  destruct (run w0 tr) as [[w1 out1] |] eqn:Hrun; [| discriminate].
  inv Hlaunch.
  destruct (session_run _ _ _ _ c Hw0 Hrun) as (_ & _ & Hcount & _ & Hone).
  rewrite !count_app.
  assert (Hp : pumping c (frame w) <= 1).
  { unfold pumping. destruct (frame w); try lia. destruct (c =? c0); lia. }
  split; [lia |]. split; [lia |]. split; lia.
Qed.

Lemma destroy_once_per_session_witness :
  exists w out,
    launch (at_time 0) sample_options reset_after_100ms = Some (w, out)
    /\ count (is_session 0) out = 1
    /\ pumping 0 (frame w) = 0
    /\ count (is_destroy 0) out = 1.
Proof.
  launched H. split; [reflexivity |]. split; [reflexivity |].
  exact (proj1 (proj2 (proj2 (destroy_once_per_session _ _ _ _ _ 0 H)))
           eq_refl eq_refl).
Defined.


(** ** The history of durations *)

Lemma shift_while_longer_last_n : forall l, shift_while_longer l = last_n 6 l.
Proof.
  unfold last_n. induction l as [| x t IH]; [reflexivity |].
  unfold shift_while_longer; fold shift_while_longer.
  destruct (Nat.ltb_spec 6 (List.length (x :: t))) as [Hlt | Hge].
  - rewrite IH. simpl List.length in *.
    replace (S (List.length t) - 6) with (S (List.length t - 6)) by lia.
    reflexivity.
  - replace (List.length (x :: t) - 6) with 0 by lia. reflexivity.
Qed.

Lemma length_last_n : forall (A : Type) n (l : list A), List.length (last_n n l) <= n.
Proof. intros A n l. unfold last_n. rewrite length_skipn. lia. Qed.

Lemma last_n_push : forall (A : Type) n (l : list A) d,
  0 < n -> last_n n (last_n n l ++ [d]) = last_n n (l ++ [d]).
Proof.
  intros A n l d Hn. unfold last_n.
  rewrite !length_app, length_skipn. simpl List.length.
  rewrite !skipn_app, length_skipn, skipn_skipn.
  f_equal.
  - f_equal. lia.
  - f_equal. lia.
Qed.

Lemma stats_step : forall env w ev w' o s G,
  step env w ev = Some (w', o) ->
  start_of (frame w) s ->
  stats_of G (adapter w) ->
  start_of (frame w') (match ev with Timeout => performance_now env | _ => s end)
  /\ stats_of (G ++ match ev with
                    | Timeout => []
                    | _ => if ends_attempt ev then [(performance_now env - s)%float] else []
                    end) (adapter w').
Proof.
  intros env w ev w' o s G Hstep Hstart [Hstats Havg].
  step_cases Hstep; simpl in *; subst; rewrite ?app_nil_r.
  all: split; [first [reflexivity | exact I] |].
  all: try (split; simpl; assumption).
  all: split; simpl.
  all: try (rewrite shift_while_longer_last_n, Hstats; apply last_n_push; lia).
  all: destruct G; reflexivity.
Qed.

Lemma stats_run : forall tr w w' out s G,
  run w tr = Some (w', out) ->
  start_of (frame w) s ->
  stats_of G (adapter w) ->
  stats_of (G ++ attempt_durations s tr) (adapter w').
Proof.
  induction tr as [| [env ev] tr IH]; intros w w' out s G Hrun Hstart HG; simpl in Hrun.
  - inv Hrun. simpl. now rewrite app_nil_r.
  - destruct (step env w ev) as [[w1 o] |] eqn:Hstep; [| discriminate].
    destruct (run w1 tr) as [[w2 out2] |] eqn:Hrest; [| discriminate].
    inv Hrun.
    destruct (stats_step _ _ _ _ _ _ _ Hstep Hstart HG) as [Hstart1 HG1].
    pose proof (IH _ _ _ _ _ Hrest Hstart1 HG1) as Hend.
    rewrite <- app_assoc in Hend.
    destruct ev as [| | [e |] | d [e |] | | | | |]; simpl in *; exact Hend.
Qed.

(** X2: at every moment the history holds the durations of the last six
    attempts that ended, oldest first (all of them while there are at most
    six), and [avg_conn_duration] is NaN until the first attempt has ended
    and from then on the sum of the history, added from the oldest entry on
    to 0, divided by its length. *)
Theorem duration_history :
  forall env options tr w out,
    launch env options tr = Some (w, out) ->
    let ds := attempt_durations (performance_now env) tr in
    stats_conn_duration (adapter w) = last_n 6 ds
    /\ List.length (stats_conn_duration (adapter w)) <= 6
    /\ avg_conn_duration (adapter w)
       = match ds with
         | [] => NaN
         | _ => average (stats_conn_duration (adapter w))
         end.
Proof.
  intros env options tr w out Hlaunch ds. unfold launch in Hlaunch.
  assert (H0 : start_of (frame (fst (construct env options))) (performance_now env)
               /\ stats_of [] (adapter (fst (construct env options)))).
  { unfold construct. destruct (enabled options); simpl; repeat split. }
  destruct H0 as [Hstart H0].
  destruct (construct env options) as [w0 o0]. simpl in *.
  destruct (run w0 tr) as [[w1 out1] |] eqn:Hrun; [| discriminate].
  inv Hlaunch.
  destruct (stats_run _ _ _ _ _ _ Hrun Hstart H0) as [Hstats Havg].
  simpl in Hstats, Havg. fold ds in Hstats, Havg.
  split; [exact Hstats |]. split; [| exact Havg].
  rewrite Hstats. apply length_last_n.
Qed.

Lemma duration_history_witness :
  exists w out,
    launch (at_time 0) sample_options seven_attempts = Some (w, out)
    /\ attempt_durations 0%float seven_attempts
       = [1; 2; 3; 4; 5; 6; 7]%float
    /\ stats_conn_duration (adapter w) = [2; 3; 4; 5; 6; 7]%float
    /\ avg_conn_duration (adapter w) = 4.5%float.
Proof.
  launched H. split; [reflexivity |].
  destruct (duration_history _ _ _ _ _ H) as (Hstats & _ & Havg).
  split; [exact Hstats | exact Havg].
Defined.


(** ** What is published *)

Lemma snapshots_handle_err_log : forall a err, snapshots (handle_err_log a err) = [].
Proof.
  intros a err. unfold handle_err_log.
  destruct err as [name msg | shown]; simpl; [| reflexivity].
  destruct (verbose a), (known_name name); reflexivity.
Qed.

Lemma details_eqb_refl : forall d, details_eqb d d = true.
Proof. destruct d; reflexivity. Qed.

Lemma status_eqb_refl : forall s, status_eqb s s = true.
Proof. destruct s; reflexivity. Qed.

Ltac published :=
  repeat match goal with
  | |- context [if verbose ?a then _ else _] => destruct (verbose a)
  | |- context [match destroy_throws ?e with _ => _ end] => destruct (destroy_throws e)
  end;
  rewrite ?snapshots_app, ?snapshots_handle_err_log; simpl;
  rewrite ?snapshots_app, ?snapshots_handle_err_log; simpl;
  rewrite ?details_eqb_refl, ?status_eqb_refl, ?orb_true_r; simpl.

Lemma observed_step : forall env w ev w' o,
  step env w ev = Some (w', o) ->
  chain details_rule_connected (seen w) (snapshots o) = true
  /\ last (snapshots o) (seen w) = seen w'.
Proof.
  intros env w ev w' o Hstep. unfold seen, details_rule_connected.
  step_cases Hstep; published; split; reflexivity.
Qed.

Lemma status_step : forall env w ev w' o,
  in_step w -> late_write_failure w ev = false ->
  step env w ev = Some (w', o) ->
  in_step w'
  /\ chain (fun p q => status_rule (fst p) (fst q)) (seen w) (snapshots o) = true.
Proof.
  intros env w ev w' o Hin Hlate Hstep. unfold seen, in_step, status_rule in *.
  step_cases Hstep; simpl in Hin, Hlate; try discriminate Hlate; published.
  all: try (destruct Hin as [Hin | Hin]); rewrite ?Hin; simpl; auto.
Qed.

Lemma last_app_default : forall (A : Type) (l1 l2 : list A) x,
  last (l1 ++ l2) x = last l2 (last l1 x).
Proof.
  induction l1 as [| y l1 IH]; intros l2 x; [reflexivity |].
  change ((y :: l1) ++ l2) with (y :: (l1 ++ l2)).
  now rewrite !last_cons, IH.
Qed.

Lemma chain_map : forall (A B : Type) (f : A -> B) (ok : B -> B -> bool) l x,
  chain ok (f x) (map f l) = chain (fun p q => ok (f p) (f q)) x l.
Proof.
  induction l as [| y l IH]; intros x; simpl; [reflexivity |].
  now rewrite IH.
Qed.

Lemma observed_run : forall tr w w' out,
  run w tr = Some (w', out) ->
  chain details_rule_connected (seen w) (snapshots out) = true
  /\ last (snapshots out) (seen w) = seen w'.
Proof.
  induction tr as [| [env ev] tr IH]; intros w w' out Hrun; simpl in Hrun.
  - inv Hrun. split; reflexivity.
  - destruct (step env w ev) as [[w1 o] |] eqn:Hstep; [| discriminate].
    destruct (run w1 tr) as [[w2 out2] |] eqn:Hrest; [| discriminate].
    inv Hrun.
    destruct (observed_step _ _ _ _ _ Hstep) as [Hc1 Hl1].
    destruct (IH _ _ _ Hrest) as [Hc2 Hl2].
    rewrite snapshots_app, chain_app, last_app_default, Hl1, Hc1, Hc2, Hl2.
    split; reflexivity.
Qed.

Lemma status_run : forall tr w w' out,
  in_step w -> no_late_write_failure w tr = true ->
  run w tr = Some (w', out) ->
  chain (fun p q => status_rule (fst p) (fst q)) (seen w) (snapshots out) = true.
Proof.
  induction tr as [| [env ev] tr IH]; intros w w' out Hin Hcalm Hrun;
    simpl in Hrun, Hcalm.
  - inv Hrun. reflexivity.
  - destruct (step env w ev) as [[w1 o] |] eqn:Hstep; [| discriminate].
    destruct (run w1 tr) as [[w2 out2] |] eqn:Hrest; [| discriminate].
    inv Hrun.
    apply andb_prop in Hcalm. destruct Hcalm as [Hlate Hcalm].
    apply negb_true_iff in Hlate.
    destruct (status_step _ _ _ _ _ Hin Hlate Hstep) as [Hin1 Hc1].
    destruct (observed_step _ _ _ _ _ Hstep) as [_ Hl1].
    rewrite snapshots_app, chain_app, Hl1.
    apply andb_true_intro. split; [exact Hc1 |].
    exact (IH _ _ _ Hin1 Hcalm Hrest).
Qed.

Lemma construct_seen : forall env options,
  let w0 := fst (construct env options) in
  let o0 := snd (construct env options) in
  in_step w0
  /\ chain details_rule_connected (DISCONNECTED, NO_ERROR) (snapshots o0) = true
  /\ chain (fun p q => status_rule (fst p) (fst q)) (DISCONNECTED, NO_ERROR)
       (snapshots o0) = true
  /\ last (snapshots o0) (DISCONNECTED, NO_ERROR) = seen w0.
Proof.
  intros env options w0 o0. subst w0 o0. unfold construct, in_step.
  destruct (enabled options); simpl.
  - destruct (opt_verbose options) as [[] |]; simpl; repeat split.
  - repeat split.
Qed.

Lemma details_rule_connected_iff : forall p q,
  details_rule_connected p q = true
  <-> snd p = snd q
      \/ fst q = DISCONNECTED
      \/ (fst q = CONNECTED /\ snd q = NO_ERROR).
Proof.
  intros [s1 d1] [s2 d2]. unfold details_rule_connected. simpl.
  destruct d1, d2, s2; simpl; split; intros H;
    try reflexivity; try discriminate H; auto;
    destruct H as [H | [H | [H1 H2]]]; discriminate.
Qed.

Lemma status_rule_iff : forall a b,
  status_rule a b = true
  <-> a = b
      \/ (a = DISCONNECTED /\ b = CONNECTING)
      \/ (a = CONNECTING /\ b = CONNECTED)
      \/ (a = CONNECTING /\ b = DISCONNECTED)
      \/ (a = CONNECTED /\ b = DISCONNECTED).
Proof.
  intros a b. unfold status_rule.
  destruct a, b; simpl; split; intros H;
    try reflexivity; try discriminate H; auto 6;
    repeat (destruct H as [H | H]); try discriminate H;
    destruct H as [H1 H2]; discriminate.
Qed.

(** X3: from one published pair of status and details to the next, the
    details change only when the status published with them is
    DISCONNECTED, or to NO_ERROR when it is CONNECTED; they never change in
    the update that publishes CONNECTING. *)
Theorem details_change_with_disconnected_or_connected :
  forall env options tr w out,
    launch env options tr = Some (w, out) ->
    chain details_rule_connected (DISCONNECTED, NO_ERROR) (snapshots out) = true.
Proof.
  intros env options tr w out Hlaunch. unfold launch in Hlaunch.
  destruct (construct_seen env options) as (_ & Hc0 & _ & Hl0).
  destruct (construct env options) as [w0 o0]. simpl in *.
  destruct (run w0 tr) as [[w1 out1] |] eqn:Hrun; [| discriminate].
  inv Hlaunch.
  destruct (observed_run _ _ _ _ Hrun) as [Hc1 _].
  now rewrite snapshots_app, chain_app, Hc0, Hl0.
Qed.

Lemma details_change_with_disconnected_or_connected_witness :
  exists w out,
    launch (at_time 0) sample_options refused_then_connected = Some (w, out)
    /\ snapshots out
       = [(CONNECTING, NO_ERROR); (DISCONNECTED, ECONNREFUSED);
          (DISCONNECTED, ECONNREFUSED); (CONNECTING, ECONNREFUSED);
          (CONNECTED, NO_ERROR)]
    /\ chain details_rule_connected (DISCONNECTED, NO_ERROR) (snapshots out) = true.
Proof.
  launched H. split; [reflexivity |].
  exact (details_change_with_disconnected_or_connected _ _ _ _ _ H).
Defined.


(** X4: the status starts as DISCONNECTED and, as long as no write of an
    earlier connection fails while the adapter awaits [Deno.connect], it
    only moves from DISCONNECTED to CONNECTING, from CONNECTING to CONNECTED
    or DISCONNECTED, and from CONNECTED to DISCONNECTED; a write that fails
    while its connection is read is among the moves from CONNECTED to
    DISCONNECTED. *)
Theorem status_moves_in_order :
  forall env options tr w out,
    launch env options tr = Some (w, out) ->
    no_late_write_failure (fst (construct env options)) tr = true ->
    status (fields options) = DISCONNECTED
    /\ chain status_rule DISCONNECTED (statuses out) = true.
Proof.
  intros env options tr w out Hlaunch Hcalm. split; [reflexivity |].
  unfold launch in Hlaunch.
  destruct (construct_seen env options) as (Hin & _ & Hc0 & Hl0).
  destruct (construct env options) as [w0 o0]. simpl in *.
  destruct (run w0 tr) as [[w1 out1] |] eqn:Hrun; [| discriminate].
  inv Hlaunch.
  unfold statuses.
  change DISCONNECTED with (fst (DISCONNECTED, NO_ERROR)).
  rewrite chain_map, snapshots_app, chain_app, Hl0.
  apply andb_true_intro. split; [exact Hc0 |].
  exact (status_run _ _ _ _ Hin Hcalm Hrun).
Qed.

Lemma status_moves_in_order_witness :
  exists w out,
    launch (at_time 0) sample_options write_fails_while_connected = Some (w, out)
    /\ no_late_write_failure (fst (construct (at_time 0) sample_options))
         write_fails_while_connected = true
    /\ statuses out = [CONNECTING; CONNECTED; DISCONNECTED]
    /\ chain status_rule DISCONNECTED (statuses out) = true.
Proof.
  launched H.
  assert (Hcalm : no_late_write_failure (fst (construct (at_time 0) sample_options))
                    write_fails_while_connected = true) by reflexivity.
  split; [exact Hcalm |]. split; [reflexivity |].
  exact (proj2 (status_moves_in_order _ _ _ _ _ H Hcalm)).
Defined.


Lemma coherent_run : forall tr w w' out,
  coherent w -> run w tr = Some (w', out) -> coherent w'.
Proof.
  intros tr w w' out Hw Hrun.
  exact (proj1 (session_run tr w w' out 0 Hw Hrun)).
Qed.


(** ** Effects of a run, one step at a time *)

Lemma run_effects :
  forall (Inv : world -> Prop) (E : ambient * event -> Prop) (Q : effect -> Prop),
    (forall env w ev w' o,
        Inv w -> E (env, ev) -> step env w ev = Some (w', o) ->
        Inv w' /\ Forall Q o) ->
    forall tr w w' out,
      Inv w -> Forall E tr -> run w tr = Some (w', out) ->
      Inv w' /\ Forall Q out.
Proof.
  intros Inv E Q Hstep.
  induction tr as [| [env ev] tr IH]; intros w w' out Hw HE Hrun; simpl in Hrun.
  - inv Hrun. split; [assumption | constructor].
  - destruct (step env w ev) as [[w1 o] |] eqn:Hs; [| discriminate].
    destruct (run w1 tr) as [[w2 out2] |] eqn:Hrest; [| discriminate].
    inv Hrun. inv HE.
    destruct (Hstep _ _ _ _ _ Hw H1 Hs) as [Hw1 Ho].
    destruct (IH _ _ _ Hw1 H2 Hrest) as [Hw2 Hout].
    split; [assumption |]. apply Forall_app. split; assumption.
Qed.

Lemma count_none : forall p out,
  Forall (fun e => p e = false) out -> count p out = 0.
Proof.
  intros p out H. unfold count. induction H as [| e out He _ IH]; simpl.
  - reflexivity.
  - now rewrite He.
Qed.

Ltac concrete :=
  unfold handle_err_log in *; simpl;
  repeat match goal with
  | |- context [match ?e with JsError _ _ => _ | JsOther _ => _ end] => destruct e
  | |- context [if verbose ?a then _ else _] => destruct (verbose a) eqn:?
  | |- context [if known_name ?n then _ else _] => destruct (known_name n)
  | |- context [match destroy_throws ?e with _ => _ end] =>
      destruct (destroy_throws e) eqn:?
  end;
  simpl.

Ltac each := repeat (apply Forall_cons || apply Forall_nil); simpl; auto.

(** ** The timer *)

Lemma immediate_step : forall env w ev w' o,
  step env w ev = Some (w', o) -> Forall immediate o.
Proof.
  intros env w ev w' o Hstep.
  step_cases Hstep; concrete; each; apply retry_delay_never_positive.
Qed.

(** X8: no timer the adapter sets waits: the delay of every [setTimeout] of
    a run is NaN, zero or negative, never above zero. *)
Theorem timers_never_wait :
  forall env options tr w out d,
    launch env options tr = Some (w, out) ->
    In (SetTimeout d) out ->
    (0 <? d)%float = false.
Proof.
  intros env options tr w out d Hlaunch Hin. unfold launch in Hlaunch.
  assert (H0 : Forall immediate (snd (construct env options))).
  { unfold construct.
    destruct (enabled options); simpl;
      [destruct (opt_verbose options) as [[] |]; simpl |]; each. }
  destruct (construct env options) as [w0 o0]. simpl in H0.
  destruct (run w0 tr) as [[w1 out1] |] eqn:Hrun; [| discriminate].
  inv Hlaunch.
  assert (H1 : Forall immediate out1).
  { apply (run_effects (fun _ => True) (fun _ => True) immediate) with (4 := Hrun).
    - intros. split; [exact I | eapply immediate_step; eassumption].
    - exact I.
    - apply Forall_forall. intros; exact I. }
  assert (H : Forall immediate (o0 ++ out1)) by (apply Forall_app; split; assumption).
  rewrite Forall_forall in H. exact (H _ Hin).
Qed.

Lemma timers_never_wait_witness :
  exists w out,
    launch (at_time 0) sample_options reset_after_100ms = Some (w, out)
    /\ In (SetTimeout 0%float) out
    /\ (0 <? 0)%float = false.
Proof.
  do 2 eexists. split; [vm_compute; reflexivity |].
  assert (Hin : In (SetTimeout 0%float)
                  [Published CONNECTING NO_ERROR; Deno_connect "127.0.0.1" 1234;
                   SetNoDelay 0; SetKeepAlive 0; Published CONNECTED NO_ERROR;
                   Session_factory 0 true; Published DISCONNECTED ECONNRESET;
                   Published DISCONNECTED ECONNRESET; SetTimeout 0%float;
                   Session_destroy 0]).
  { simpl. tauto. }
  split; [exact Hin |].
  exact (timers_never_wait (at_time 0) sample_options reset_after_100ms _ _ _ eq_refl Hin).
Defined.

Lemma launch_split : forall env options tr w out,
  launch env options tr = Some (w, out) ->
  exists out1,
    run (fst (construct env options)) tr = Some (w, out1)
    /\ out = snd (construct env options) ++ out1.
Proof.
  intros env options tr w out Hlaunch. unfold launch in Hlaunch.
  destruct (construct env options) as [w0 o0]. simpl.
  destruct (run w0 tr) as [[w1 out1] |]; [| discriminate].
  inv Hlaunch. eauto.
Qed.

Lemma construct_effects : forall env options,
  snd (construct env options)
  = if enabled options
    then (if verbose (fields options) then [Console_log Line_connecting] else [])
         ++ [Published CONNECTING NO_ERROR;
             Deno_connect (opt_host options) (opt_port options)]
    else [].
Proof.
  intros env options. unfold construct. destruct (enabled options); reflexivity.
Qed.

(** ** Where the adapter connects to *)

Lemma targets_step : forall env w ev w' o h p,
  host (adapter w) = h /\ port (adapter w) = p ->
  step env w ev = Some (w', o) ->
  (host (adapter w') = h /\ port (adapter w') = p) /\ Forall (targets h p) o.
Proof.
  intros env w ev w' o h p [Hh Hp] Hstep.
  step_cases Hstep; simpl in *;
    (split; [split; first [assumption | reflexivity] |]); concrete; each.
Qed.

Lemma targets_launch : forall env options tr w out,
  launch env options tr = Some (w, out) ->
  Forall (targets (opt_host options) (opt_port options)) out.
Proof.
  intros env options tr w out Hlaunch.
  destruct (launch_split _ _ _ _ _ Hlaunch) as (out1 & Hrun & ->).
  apply Forall_app. split.
  - rewrite construct_effects.
    destruct (enabled options); [destruct (verbose (fields options)) |]; each.
  - apply (run_effects
             (fun w => host (adapter w) = opt_host options
                       /\ port (adapter w) = opt_port options)
             (fun _ => True)
             (targets (opt_host options) (opt_port options)))
      with (4 := Hrun).
    + intros. eapply targets_step; eassumption.
    + unfold construct. destruct (enabled options); simpl; split; reflexivity.
    + apply Forall_forall. intros; exact I.
Qed.

(** X14: every [Deno.connect] of a run goes to the host and the port of
    the options, whatever happened before. *)
Theorem connects_to_the_configured_peer :
  forall env options tr w out h p,
    launch env options tr = Some (w, out) ->
    In (Deno_connect h p) out ->
    h = opt_host options /\ p = opt_port options.
Proof.
  intros env options tr w out h p Hlaunch Hin.
  pose proof (targets_launch _ _ _ _ _ Hlaunch) as H.
  rewrite Forall_forall in H. exact (H _ Hin).
Qed.

Lemma connects_to_the_configured_peer_witness :
  exists w out,
    launch (at_time 0) sample_options refused_then_connected = Some (w, out)
    /\ count is_connect out = 2
    /\ ("127.0.0.1"%string = opt_host sample_options /\ 1234%Z = opt_port sample_options).
Proof.
  do 2 eexists. split; [vm_compute; reflexivity |].
  split; [reflexivity |].
  refine (connects_to_the_configured_peer (at_time 0) sample_options
            refused_then_connected _ _ "127.0.0.1"%string 1234%Z eq_refl _).
  simpl. tauto.
Defined.

(** ** What is logged when [verbose] is off *)




(** ** What leaves the loop *)

Lemma unhandled_step : forall env w ev w' o x,
  step env w ev = Some (w', o) ->
  In (Unhandled_rejection x) o ->
  destroy_throws env = Some x /\ ends_attempt ev = true.
Proof.
  intros env w ev w' o x Hstep Hin.
  step_cases Hstep; revert Hin; concrete; intros Hin;
    repeat match goal with
    | H : _ \/ _ |- _ => destruct H as [H | H]
    | H : _ = Unhandled_rejection _ |- _ => inv H
    | H : False |- _ => elim H
    end.
  all: split; first [assumption | reflexivity].
Qed.

(** X15: the promise of [#loop] is rejected only with what
    [session.destroy()] threw at the end of an attempt; connect errors, read
    errors and what [recv] or the session factory throw never leave the
    loop.  If [destroy] never throws, the promise is never rejected. *)
Theorem only_destroy_rejects_the_loop :
  forall env options tr w out,
    launch env options tr = Some (w, out) ->
    (forall x, In (Unhandled_rejection x) out ->
       exists env1 ev, In (env1, ev) tr
                       /\ destroy_throws env1 = Some x
                       /\ ends_attempt ev = true)
    /\ (destroy_is_total tr = true -> count is_unhandled out = 0).
Proof.
  intros env options tr w out Hlaunch.
  destruct (launch_split _ _ _ _ _ Hlaunch) as (out1 & Hrun & ->).
  assert (H0 : forall x, ~ In (Unhandled_rejection x) (snd (construct env options))).
  { intros x. rewrite construct_effects.
    destruct (enabled options); [destruct (verbose (fields options)) |]; simpl;
      intuition discriminate. }
  assert (H1 : forall x, In (Unhandled_rejection x) out1 ->
                 exists env1 ev, In (env1, ev) tr
                                 /\ destroy_throws env1 = Some x
                                 /\ ends_attempt ev = true).
  { clear Hlaunch H0. revert Hrun. generalize (fst (construct env options)).
    revert out1. induction tr as [| [env1 ev] tr IH]; intros out1 w0 Hrun x Hin;
      simpl in Hrun.
    - inv Hrun. elim Hin.
    - destruct (step env1 w0 ev) as [[w1 o] |] eqn:Hs; [| discriminate].
      destruct (run w1 tr) as [[w2 out2] |] eqn:Hrest; [| discriminate].
      inv Hrun. apply in_app_or in Hin. destruct Hin as [Hin | Hin].
      + destruct (unhandled_step _ _ _ _ _ _ Hs Hin) as [Hd He].
        exists env1, ev. simpl. auto.
      + destruct (IH _ _ Hrest _ Hin) as (env2 & ev2 & Hin2 & Hd & He).
        exists env2, ev2. simpl. auto. }
  split.
  - intros x Hin. apply in_app_or in Hin. destruct Hin as [Hin | Hin].
    + elim (H0 _ Hin).
    + exact (H1 _ Hin).
  - intros Htotal. apply count_none. apply Forall_forall.
    intros e He. destruct e; try reflexivity. exfalso.
    apply in_app_or in He. destruct He as [He | He]; [exact (H0 _ He) |].
    destruct (H1 _ He) as (env1 & ev & Hin & Hd & _).
    unfold destroy_is_total in Htotal. rewrite forallb_forall in Htotal.
    specialize (Htotal _ Hin). simpl in Htotal. rewrite Hd in Htotal. discriminate.
Qed.

Lemma only_destroy_rejects_the_loop_witness :
  exists w out,
    launch (at_time 0) sample_options two_chunks = Some (w, out)
    /\ count is_destroy_any out = 1
    /\ count is_unhandled out = 0.
Proof.
  launched H. split; [reflexivity |].
  exact (proj2 (only_destroy_rejects_the_loop _ _ _ _ _ H) eq_refl).
Defined.

(** ** Chunks and [recv] *)

Lemma received_app : forall o1 o2, received (o1 ++ o2) = received o1 ++ received o2.
Proof.
  induction o1 as [| e o1 IH]; intros o2; simpl; [reflexivity |].
  destruct e; simpl; rewrite ?IH; reflexivity.
Qed.

Lemma received_step : forall env w ev w' o,
  step env w ev = Some (w', o) ->
  received o = match ev with Chunk data _ => [data] | _ => [] end.
Proof.
  intros env w ev w' o Hstep.
  step_cases Hstep; concrete; reflexivity.
Qed.

(** X11: every chunk a stream yields is handed to [recv] exactly once and
    in the order of arrival, the chunk on which [recv] throws included;
    [recv] is called with nothing else. *)
Theorem recv_gets_every_chunk_in_order :
  forall env options tr w out,
    launch env options tr = Some (w, out) ->
    received out = delivered tr.
Proof.
  intros env options tr w out Hlaunch.
  destruct (launch_split _ _ _ _ _ Hlaunch) as (out1 & Hrun & ->).
  rewrite received_app, construct_effects.
  replace (received (if enabled options
                     then (if verbose (fields options)
                           then [Console_log Line_connecting] else [])
                          ++ [Published CONNECTING NO_ERROR;
                              Deno_connect (opt_host options) (opt_port options)]
                     else [])) with (@nil Uint8Array)
    by (destruct (enabled options); [destruct (verbose (fields options)) |]; reflexivity).
  simpl. clear Hlaunch. revert Hrun. generalize (fst (construct env options)).
  revert out1. induction tr as [| [env1 ev] tr IH]; intros out1 w0 Hrun; simpl in Hrun.
  - inv Hrun. reflexivity.
  - destruct (step env1 w0 ev) as [[w1 o] |] eqn:Hs; [| discriminate].
    destruct (run w1 tr) as [[w2 out2] |] eqn:Hrest; [| discriminate].
    inv Hrun. rewrite received_app, (received_step _ _ _ _ _ Hs), (IH _ _ Hrest).
    destruct ev; reflexivity.
Qed.

Lemma recv_gets_every_chunk_in_order_witness :
  exists w out,
    launch (at_time 0) sample_options two_chunks = Some (w, out)
    /\ received out = [hello; client_hello].
Proof.
  launched H.
  exact (recv_gets_every_chunk_in_order _ _ _ _ _ H).
Defined.

(** ** One attempt at a time *)

Lemma attempts_step : forall env w ev w' o,
  step env w ev = Some (w', o) ->
  count is_connect o + active (frame w) = count is_timer o + active (frame w').
Proof.
  intros env w ev w' o Hstep.
  step_cases Hstep; tally; concrete; reflexivity.
Qed.

(** X12: attempts never overlap.  At every moment the number of
    [Deno.connect] calls made so far is the number of timers set so far,
    plus one while an attempt is under way: every attempt sets exactly one
    timer when it ends and every timer starts exactly one attempt. *)
Theorem one_attempt_at_a_time :
  forall env options tr w out,
    launch env options tr = Some (w, out) ->
    count is_connect out = count is_timer out + active (frame w).
Proof.
  intros env options tr w out Hlaunch.
  destruct (launch_split _ _ _ _ _ Hlaunch) as (out1 & Hrun & ->).
  assert (H0 : count is_connect (snd (construct env options))
               = active (frame (fst (construct env options)))
               /\ count is_timer (snd (construct env options)) = 0).
  { unfold construct. destruct (enabled options); simpl;
      [destruct (opt_verbose options) as [[] |] |]; split; reflexivity. }
  destruct H0 as [Hc0 Ht0]. rewrite !count_app, Hc0, Ht0. simpl.
  clear Hlaunch Hc0 Ht0. revert Hrun. generalize (fst (construct env options)).
  revert out1. induction tr as [| [env1 ev] tr IH]; intros out1 w0 Hrun; simpl in Hrun.
  - inv Hrun. unfold count. simpl. lia.
  - destruct (step env1 w0 ev) as [[w1 o] |] eqn:Hs; [| discriminate].
    destruct (run w1 tr) as [[w2 out2] |] eqn:Hrest; [| discriminate].
    inv Hrun. rewrite !count_app.
    pose proof (attempts_step _ _ _ _ _ Hs). pose proof (IH _ _ Hrest). lia.
Qed.

Lemma one_attempt_at_a_time_witness :
  exists w out,
    launch (at_time 0) sample_options seven_attempts = Some (w, out)
    /\ count is_connect out = 7
    /\ count is_timer out = 7
    /\ frame w = Sleeping.
Proof.
  launched H. split; [| split; reflexivity].
  exact (one_attempt_at_a_time _ _ _ _ _ H).
Defined.

(** ** The current connection *)

Lemma launch_coherent : forall env options tr w out,
  launch env options tr = Some (w, out) -> coherent w.
Proof.
  intros env options tr w out Hlaunch.
  destruct (launch_split _ _ _ _ _ Hlaunch) as (out1 & Hrun & _).
  exact (coherent_run _ _ _ _ (proj1 (construct_coherent env options)) Hrun).
Qed.

Lemma existsb_conn : forall c l, existsb (Nat.eqb c) l = true <-> In c l.
Proof.
  intros c l. rewrite existsb_exists. split.
  - intros (x & Hin & Heq). apply Nat.eqb_eq in Heq. now subst.
  - intros Hin. exists c. split; [assumption | apply Nat.eqb_refl].
Qed.

(** X9: [#current_conn] is set exactly while the stream of a connection is
    read, and then it is that connection; it is null while the adapter
    connects, sleeps or is disabled.  The current connection is one the
    adapter obtained from [Deno.connect] and gave a send callback for. *)
Theorem current_conn_is_the_connection_being_read :
  forall env options tr w out,
    launch env options tr = Some (w, out) ->
    (forall c, current_conn (adapter w) = Some c
               <-> exists connStart, frame w = AwaitReadable connStart c)
    /\ (forall c, current_conn (adapter w) = Some c ->
          In c (callbacks w) /\ c < fresh_conn w).
Proof.
  intros env options tr w out Hlaunch.
  destruct (launch_coherent _ _ _ _ _ Hlaunch) as [Hcur Hf].
  split.
  - intros c. rewrite Hcur. split.
    + destruct (frame w) as [| | cs | cs c0]; intros H; try discriminate H.
      inv H. eauto.
    + intros [cs ->]. reflexivity.
  - intros c Hc. rewrite Hcur in Hc.
    destruct (frame w) as [| | cs | cs c0] eqn:Hfr; try discriminate Hc.
    inv Hc. destruct (Hf _ _ eq_refl) as [H1 H2].
    split; [now apply existsb_conn | assumption].
Qed.

Lemma current_conn_is_the_connection_being_read_witness :
  exists w out,
    launch (at_time 0) sample_options superseded = Some (w, out)
    /\ current_conn (adapter w) = Some 1
    /\ (In 1 (callbacks w) /\ 1 < fresh_conn w).
Proof.
  launched H. split; [reflexivity |].
  exact (proj2 (current_conn_is_the_connection_being_read _ _ _ _ _ H) 1 eq_refl).
Defined.

(** ** A write that fails *)

(** X7: when a write on the connection being read fails, [#handle_err]
    sets the status to DISCONNECTED and the details to the class of the
    error at once, but the connection stays the current one and its stream
    is still read: the next chunk is handed to [recv] while the status
    already says DISCONNECTED, and the adapter stays as it is. *)
Theorem write_failure_disconnects_while_reading :
  forall env options tr w out connStart c err env1 env2 chunk,
    launch env options tr = Some (w, out) ->
    frame w = AwaitReadable connStart c ->
    In c (pending_writes w) ->
    exists w1 o1,
      step env1 w (WriteSettled c (Some err)) = Some (w1, o1)
      /\ status (adapter w1) = DISCONNECTED
      /\ details (adapter w1) = classify_err err
      /\ frame w1 = AwaitReadable connStart c
      /\ current_conn (adapter w1) = Some c
      /\ snapshots o1 = [(DISCONNECTED, classify_err err)]
      /\ step env2 w1 (Chunk chunk None) = Some (w1, [Session_recv c chunk]).
Proof.
  intros env options tr w out connStart c err env1 env2 chunk Hlaunch Hfr Hpend.
  destruct (launch_coherent _ _ _ _ _ Hlaunch) as [Hcur _].
  rewrite Hfr in Hcur. apply existsb_conn in Hpend.
  destruct w as [a f cbs pend fr]. simpl in *. subst f.
  unfold step. simpl. rewrite Hpend.
  do 2 eexists. split; [reflexivity |]. simpl.
  repeat split; try assumption.
  rewrite snapshots_app, snapshots_handle_err_log. reflexivity.
Qed.

Lemma write_failure_disconnects_while_reading_witness :
  exists w out,
    launch (at_time 0) sample_options
      [(at_time 0, ConnectResolved None); (at_time 1, SendCalled 0 client_hello)]
    = Some (w, out)
    /\ (frame w = AwaitReadable 0%float 0 /\ In 0 (pending_writes w))
    /\ exists w1 o1,
         step (at_time 2) w (WriteSettled 0 (Some reset)) = Some (w1, o1)
         /\ status (adapter w1) = DISCONNECTED
         /\ details (adapter w1) = classify_err reset
         /\ frame w1 = AwaitReadable 0%float 0
         /\ current_conn (adapter w1) = Some 0
         /\ snapshots o1 = [(DISCONNECTED, classify_err reset)]
         /\ step (at_time 3) w1 (Chunk hello None) = Some (w1, [Session_recv 0 hello]).
Proof.
  launched H. split; [split; [reflexivity | simpl; tauto] |].
  apply (write_failure_disconnects_while_reading _ _ _ _ _ _ _ _ _ _ _ H);
    [reflexivity | simpl; tauto].
Defined.

(** X18: a write of an earlier connection that fails while the adapter
    awaits [Deno.connect] sets the status back to DISCONNECTED; when the
    connect then succeeds the status goes from DISCONNECTED straight to
    CONNECTED, and the details from the class of the write error to
    NO_ERROR. *)
Theorem late_write_failure_skips_connecting :
  forall env1 env2 w connStart c err,
    frame w = AwaitConnect connStart ->
    In c (pending_writes w) ->
    exists w1 o1 w2 o2,
      step env1 w (WriteSettled c (Some err)) = Some (w1, o1)
      /\ step env2 w1 (ConnectResolved None) = Some (w2, o2)
      /\ snapshots (o1 ++ o2)
         = [(DISCONNECTED, classify_err err); (CONNECTED, NO_ERROR)]
      /\ frame w2 = AwaitReadable connStart (fresh_conn w)
      /\ current_conn (adapter w2) = Some (fresh_conn w).
Proof.
  intros env1 env2 [a f cbs pend fr] connStart c err Hfr Hpend.
  simpl in *. subst f. apply existsb_conn in Hpend.
  unfold step. simpl. rewrite Hpend.
  do 4 eexists. split; [reflexivity |]. simpl. split; [reflexivity |].
  split; [| split; reflexivity].
  rewrite !snapshots_app, snapshots_handle_err_log. simpl.
  destruct (verbose a); reflexivity.
Qed.

Lemma late_write_failure_skips_connecting_witness :
  exists w out,
    launch (at_time 0) sample_options
      [(at_time 0, ConnectResolved None);
       (at_time 10, SendCalled 0 hello);
       (at_time 100, ReadableClosed);
       (at_time 100, Timeout)] = Some (w, out)
    /\ (frame w = AwaitConnect 100%float /\ In 0 (pending_writes w))
    /\ exists w1 o1 w2 o2,
         step (at_time 101) w (WriteSettled 0 (Some reset)) = Some (w1, o1)
         /\ step (at_time 102) w1 (ConnectResolved None) = Some (w2, o2)
         /\ snapshots (o1 ++ o2)
            = [(DISCONNECTED, classify_err reset); (CONNECTED, NO_ERROR)]
         /\ frame w2 = AwaitReadable 100%float (fresh_conn w)
         /\ current_conn (adapter w2) = Some (fresh_conn w).
Proof.
  launched H. split; [split; [reflexivity | simpl; tauto] |].
  apply late_write_failure_skips_connecting; [reflexivity | simpl; tauto].
Defined.

(** ** Failures end the attempt, not the loop *)

(** X5: a connect error, a read error or an exception of [recv] ends the
    attempt and nothing else: the error is classified into the details, the
    status is DISCONNECTED, the current connection is cleared, exactly one
    timer is set, nothing but what [destroy] throws is rejected, and when
    the timer fires the next attempt connects. *)
Theorem failure_ends_the_attempt_only :
  forall env env' w ev e,
    attempt_failure w ev = Some e ->
    exists w1 o1 w2 o2,
      step env w ev = Some (w1, o1)
      /\ step env' w1 Timeout = Some (w2, o2)
      /\ frame w1 = Sleeping
      /\ status (adapter w1) = DISCONNECTED
      /\ details (adapter w1) = classify_err e
      /\ current_conn (adapter w1) = None
      /\ count is_timer o1 = 1
      /\ (forall x, In (Unhandled_rejection x) o1 -> destroy_throws env = Some x)
      /\ count is_connect o2 = 1
      /\ frame w2 = AwaitConnect (performance_now env').
Proof.
  intros env env' w ev e Hfail.
  assert (Hstep : exists w1 o1, step env w ev = Some (w1, o1)
                    /\ frame w1 = Sleeping
                    /\ status (adapter w1) = DISCONNECTED
                    /\ details (adapter w1) = classify_err e
                    /\ current_conn (adapter w1) = None
                    /\ count is_timer o1 = 1).
  { destruct w as [a f cbs pend fr]. unfold attempt_failure in Hfail. simpl in Hfail.
    destruct f; try discriminate Hfail;
      destruct ev as [| | | d [e' |] | | | | |]; try discriminate Hfail; inv Hfail.
    all: do 2 eexists; (split; [reflexivity |]); simpl.
    all: repeat (split; [reflexivity |]).
    all: tally; concrete; reflexivity. }
  destruct Hstep as (w1 & o1 & Hs & Hfr & Hst & Hde & Hcur & Htimer).
  exists w1, o1.
  destruct w1 as [a1 f1 cbs1 pend1 fr1]. simpl in Hfr. subst f1.
  do 2 eexists. split; [exact Hs |]. split; [reflexivity |].
  repeat (split; [assumption || reflexivity |]).
  split.
  - intros x Hin. exact (proj1 (unhandled_step _ _ _ _ _ _ Hs Hin)).
  - split; [| reflexivity]. tally. concrete; reflexivity.
Qed.

Lemma failure_ends_the_attempt_only_witness :
  exists w out,
    launch (at_time 0) sample_options [(at_time 0, ConnectResolved None)] = Some (w, out)
    /\ attempt_failure w (ReadableErrored reset) = Some reset
    /\ exists w1 o1 w2 o2,
         step (at_time 100) w (ReadableErrored reset) = Some (w1, o1)
         /\ step (at_time 101) w1 Timeout = Some (w2, o2)
         /\ frame w1 = Sleeping
         /\ status (adapter w1) = DISCONNECTED
         /\ details (adapter w1) = classify_err reset
         /\ current_conn (adapter w1) = None
         /\ count is_timer o1 = 1
         /\ (forall x, In (Unhandled_rejection x) o1 ->
               destroy_throws (at_time 100) = Some x)
         /\ count is_connect o2 = 1
         /\ frame w2 = AwaitConnect (performance_now (at_time 101)).
Proof.
  launched H. split; [reflexivity |].
  apply failure_ends_the_attempt_only. reflexivity.
Defined.

Lemma refusals_run : forall envs w connStart,
  frame w = AwaitConnect connStart ->
  exists w' out connStart',
    run w (refusals envs) = Some (w', out)
    /\ frame w' = AwaitConnect connStart'
    /\ count is_connect out = List.length envs
    /\ count is_timer out = List.length envs
    /\ count is_unhandled out = 0
    /\ details (adapter w')
       = match envs with [] => details (adapter w) | _ => ECONNREFUSED end.
Proof.
  induction envs as [| [e1 e2] envs IH]; intros w connStart Hfr.
  - exists w, [], connStart. repeat split; assumption || reflexivity.
  - destruct w as [a f cbs pend fr]. simpl in Hfr. subst f.
    simpl refusals. unfold run; fold run. unfold step. simpl.
    match goal with
    | |- context [run ?w2 (refusals envs)] =>
        destruct (IH w2 (performance_now e2) eq_refl)
          as (w' & out & cs' & Hrun & Hfr' & Hc & Ht & Hu & Hd)
    end.
    rewrite Hrun. do 3 eexists. split; [reflexivity |]. split; [exact Hfr' |].
    split; [| split; [| split]].
    + tally. concrete; fold (count is_connect out); lia.
    + tally. concrete; fold (count is_timer out); lia.
    + tally. concrete; fold (count is_unhandled out); lia.
    + rewrite Hd. destruct envs; reflexivity.
Qed.

(** X6: when every attempt is refused at once the adapter goes on for
    ever: after any number of refusals the next one is taken as well, the
    details read ECONNREFUSED and the status DISCONNECTED after it, as many
    timers were set as attempts were made, and nothing was rejected. *)
Theorem refused_forever :
  forall env options envs last_env,
    enabled options = true ->
    exists w out,
      launch env options (refusals envs ++ [(last_env, ConnectRejected refused)])
      = Some (w, out)
      /\ status (adapter w) = DISCONNECTED
      /\ details (adapter w) = ECONNREFUSED
      /\ frame w = Sleeping
      /\ count is_connect out = S (List.length envs)
      /\ count is_timer out = S (List.length envs)
      /\ count is_unhandled out = 0.
Proof.
  intros env options envs last_env Hen.
  unfold launch, construct. rewrite Hen. simpl. rewrite run_app.
  match goal with
  | |- context [run ?w0 (refusals envs)] =>
      destruct (refusals_run envs w0 (performance_now env) eq_refl)
        as (w' & out & cs' & Hrun & Hfr' & Hc & Ht & Hu & _)
  end.
  rewrite Hrun. destruct w' as [a f cbs pend fr]. simpl in Hfr'. subst f.
  unfold run, step. simpl.
  do 2 eexists. split; [reflexivity |].
  repeat (split; [reflexivity |]).
  rewrite !count_app, Hc, Ht, Hu.
  split; [| split]; tally; concrete;
    destruct (opt_verbose options) as [[] |]; simpl; lia.
Qed.

Lemma refused_forever_witness :
  enabled sample_options = true
  /\ exists w out,
       launch (at_time 0) sample_options
         (refusals [(at_time 1, at_time 2); (at_time 3, at_time 4)]
          ++ [(at_time 5, ConnectRejected refused)])
       = Some (w, out)
       /\ status (adapter w) = DISCONNECTED
       /\ details (adapter w) = ECONNREFUSED
       /\ frame w = Sleeping
       /\ count is_connect out = 3
       /\ count is_timer out = 3
       /\ count is_unhandled out = 0.
Proof.
  split; [reflexivity |].
  exact (refused_forever (at_time 0) sample_options
           [(at_time 1, at_time 2); (at_time 3, at_time 4)] (at_time 5) eq_refl).
Defined.

(** ** After [destroy] *)

Lemma silent_app : forall o1 o2,
  silent_after_destroy o1 -> silent_after_destroy o2 ->
  (forall c, In (Session_destroy c) o1 ->
     (forall d, ~ In (Conn_write c d) o2) /\ (forall d, ~ In (Session_recv c d) o2)) ->
  silent_after_destroy (o1 ++ o2).
Proof.
  induction o1 as [| e o1 IH]; intros o2 H1 H2 Hx; [exact H2 |].
  assert (Hrest : forall c, In (Session_destroy c) o1 ->
            (forall d, ~ In (Conn_write c d) o2) /\ (forall d, ~ In (Session_recv c d) o2)).
  { intros c Hc. apply Hx. right. exact Hc. }
  destruct e; simpl in *; try (apply IH; assumption).
  destruct H1 as (Hw & Hr & Hs).
  destruct (Hx c (or_introl eq_refl)) as [Hw2 Hr2].
  split; [| split; [| apply IH; assumption]].
  - intros d Hin. apply in_app_or in Hin. destruct Hin as [Hin | Hin];
      [exact (Hw d Hin) | exact (Hw2 d Hin)].
  - intros d Hin. apply in_app_or in Hin. destruct Hin as [Hin | Hin];
      [exact (Hr d Hin) | exact (Hr2 d Hin)].
Qed.

Ltac in_cases :=
  repeat match goal with
  | H : _ \/ _ |- _ => destruct H as [H | H]
  | H : _ = Conn_write _ _ |- _ => inv H
  | H : _ = Session_recv _ _ |- _ => inv H
  | H : _ = Session_destroy _ |- _ => inv H
  | H : False |- _ => elim H
  end.

Lemma touch_step : forall env w ev w' o,
  coherent w -> step env w ev = Some (w', o) ->
  silent_after_destroy o
  /\ (forall c, In (Session_destroy c) o ->
        pumping c (frame w') = 0 /\ c < fresh_conn w')
  /\ (forall c d, In (Conn_write c d) o \/ In (Session_recv c d) o ->
        pumping c (frame w) = 1).
Proof.
  intros env w ev w' o [Hc Hf] Hstep.
  step_cases Hstep; simpl in Hc, Hf; concrete.
  all: try match goal with
       | H : conn_is _ (current_conn _) = _ |- _ => rewrite Hc in H; simpl in H
       end.
  all: try discriminate.
  all: split; [| split].
  all: try exact I.
  all: try (intros ? Hin; in_cases; fail).
  all: try (intros ? ? Hin; in_cases; fail).
  all: try (intros ? Hin; in_cases; split;
            [reflexivity | exact (proj2 (Hf _ _ eq_refl))]).
  all: try (intros ? ? Hin; in_cases; simpl; rewrite ?Nat.eqb_refl;
            first [reflexivity
                  | match goal with H : (_ =? _) = true |- _ => now rewrite H end]).
  all: repeat split; intros ? Hin; in_cases; discriminate.
Qed.

Lemma pumping_le : forall c f, pumping c f <= 1.
Proof. intros c f. unfold pumping. destruct f; try lia. destruct (c =? c0); lia. Qed.

Lemma touch_run : forall tr w w' out c d,
  coherent w -> run w tr = Some (w', out) ->
  In (Conn_write c d) out \/ In (Session_recv c d) out ->
  pumping c (frame w) = 1 \/ fresh_conn w <= c.
Proof.
  induction tr as [| [env ev] tr IH]; intros w w' out c d Hw Hrun Hin; simpl in Hrun.
  - inv Hrun. destruct Hin as [[] | []].
  - destruct (step env w ev) as [[w1 o] |] eqn:Hs; [| discriminate].
    destruct (run w1 tr) as [[w2 out2] |] eqn:Hrest; [| discriminate].
    inv Hrun.
    pose proof (coherent_step _ _ _ _ _ Hw Hs) as Hw1.
    destruct (touch_step _ _ _ _ _ Hw Hs) as (_ & _ & Htouch).
    destruct (session_step _ _ _ _ _ c Hw Hs) as (Hfr & Hcount & Hnew).
    assert (Hor : (In (Conn_write c d) o \/ In (Session_recv c d) o)
                  \/ (In (Conn_write c d) out2 \/ In (Session_recv c d) out2)).
    { destruct Hin as [Hin | Hin]; apply in_app_or in Hin; tauto. }
    destruct Hor as [Hnow | Hlater].
    + left. exact (Htouch _ _ Hnow).
    + destruct (IH _ _ _ _ _ Hw1 Hrest Hlater) as [Hp | Hge]; [| right; lia].
      pose proof (pumping_le c (frame w)).
      destruct Hnew as [H0 | (H1 & -> & _)]; [left; lia | right; lia].
Qed.

Lemma silent_run : forall tr w w' out,
  coherent w -> run w tr = Some (w', out) -> silent_after_destroy out.
Proof.
  induction tr as [| [env ev] tr IH]; intros w w' out Hw Hrun; simpl in Hrun.
  - inv Hrun. exact I.
  - destruct (step env w ev) as [[w1 o] |] eqn:Hs; [| discriminate].
    destruct (run w1 tr) as [[w2 out2] |] eqn:Hrest; [| discriminate].
    inv Hrun.
    pose proof (coherent_step _ _ _ _ _ Hw Hs) as Hw1.
    destruct (touch_step _ _ _ _ _ Hw Hs) as (Hsil & Hgone & _).
    apply silent_app; [exact Hsil | exact (IH _ _ _ Hw1 Hrest) |].
    intros c Hc. destruct (Hgone _ Hc) as [Hp Hlt].
    split; intros d Hin.
    + destruct (touch_run _ _ _ _ c d Hw1 Hrest (or_introl Hin)); lia.
    + destruct (touch_run _ _ _ _ c d Hw1 Hrest (or_intror Hin)); lia.
Qed.

(** X10: once [destroy] of a session was called, its [recv] is never
    called again and nothing is written on its connection any more, however
    late the session calls its send callback. *)
Theorem nothing_after_destroy :
  forall env options tr w out,
    launch env options tr = Some (w, out) ->
    silent_after_destroy out.
Proof.
  intros env options tr w out Hlaunch.
  destruct (launch_split _ _ _ _ _ Hlaunch) as (out1 & Hrun & ->).
  pose proof (silent_run _ _ _ _ (proj1 (construct_coherent env options)) Hrun) as H.
  rewrite construct_effects.
  destruct (enabled options); [destruct (verbose (fields options)) |]; exact H.
Qed.

Lemma nothing_after_destroy_witness :
  exists w out,
    launch (at_time 0) sample_options example_run = Some (w, out)
    /\ In (Session_destroy 0) out
    /\ silent_after_destroy out.
Proof.
  launched H. split; [simpl; tauto |].
  exact (nothing_after_destroy _ _ _ _ _ H).
Defined.

(** ** The history of durations as a list *)

(** X16: whatever the length of the list, the loop that shifts while there
    are more than six entries keeps the last six (all of them if there are
    fewer) and drops a prefix. *)
Theorem shift_keeps_the_last_six :
  forall l,
    shift_while_longer l = last_n 6 l
    /\ List.length (shift_while_longer l) = Nat.min 6 (List.length l)
    /\ l = firstn (List.length l - 6) l ++ shift_while_longer l.
Proof.
  intros l. rewrite shift_while_longer_last_n. unfold last_n.
  split; [reflexivity |]. split.
  - rewrite length_skipn. lia.
  - symmetry. apply firstn_skipn.
Qed.

(** ** The example *)



